(** * Castles: the wizard asset generator [process_wizard.py]

    The script reads [wMage.svg], replaces one literal attribute pattern by
    two different literals and writes [wWizard.svg] and [bWizard.svg].

    The development has three layers:
    - [PyStr]: Python's [str.replace], [str.startswith] and [str.count] on
      sequences of characters, and on [string];
    - [PyIO]: the part of the interpreter's world the script touches (files,
      permissions, the console) with a small state-and-exception monad;
    - [Wizard]: the script itself, and the properties of its runs. *)

From Stdlib Require Import Ascii String ZArith Lia.
From stdpp Require Import gmap strings list.
From Equations Require Import Equations.

(** ** Python strings *)

Module PyStr.

Section Sequences.
Context {A : Type} `{EqDecision A}.

(** [s.startswith(p)]. *)
Fixpoint startswith (s p : list A) : bool :=
  match p, s with
  | [], _ => true
  | _ :: _, [] => false
  | a :: p', b :: s' => bool_decide (a = b) && startswith s' p'
  end.

(** The empty pattern matches in front of every character and at the end:
    ['abc'.replace('', '-')] is ['-a-b-c-']. *)
Definition interleave (new s : list A) : list A :=
  new ++ flat_map (fun c => c :: new) s.

(** [s.replace(old, new)]: scan from the left; at a position where [old]
    starts, emit [new] and resume after the match, otherwise copy one
    character. *)
Equations? replace (s old new : list A) : list A by wf (length s) lt :=
  replace s [] new := interleave new s;
  replace [] (_ :: _) new := [];
  replace (c :: s') (o :: old') new with startswith (c :: s') (o :: old') := {
    | true := new ++ replace (drop (length old') s') (o :: old') new
    | false := c :: replace s' (o :: old') new }.
Proof.
  all: simpl; try lia.
  rewrite length_drop. lia.
Qed.

(** [s.count(p)]: the number of non-overlapping matches of the same scan. *)
Equations? count (s p : list A) : nat by wf (length s) lt :=
  count s [] := S (length s);
  count [] (_ :: _) := 0;
  count (c :: s') (o :: p') with startswith (c :: s') (o :: p') := {
    | true := S (count (drop (length p') s') (o :: p'))
    | false := count s' (o :: p') }.
Proof.
  all: simpl; try lia.
  rewrite length_drop. lia.
Qed.

(** The number of positions of [s] at which [p] starts (matches may
    overlap). *)
Fixpoint occurrences (p s : list A) : nat :=
  match s with
  | [] => if startswith [] p then 1 else 0
  | _ :: s' => (if startswith s p then 1 else 0) + occurrences p s'
  end.

(** *** Vocabulary of the specification *)

(** [p] occurs in [s]. *)
Definition occurs (p s : list A) : Prop := ∃ u v, s = u ++ p ++ v.

(** "Every non-overlapping occurrence of [old], left to right, replaced by
    [new]": either [old] does not occur, or the text splits at its
    leftmost occurrence and the rest is treated the same way. *)
Inductive replaced_all (old new : list A) : list A → list A → Prop :=
| replaced_none s :
    ¬ occurs old s → replaced_all old new s s
| replaced_first u v out :
    (∀ u' v', u ++ old ++ v = u' ++ old ++ v' → length u ≤ length u') →
    replaced_all old new v out →
    replaced_all old new (u ++ old ++ v) (u ++ new ++ out).

(** *** Overlaps between two literals *)

(** One of the two is a prefix of the other. *)
Definition comparable (x y : list A) : bool :=
  startswith x y || startswith y x.

(** [p] cannot start at any position inside [x], whatever follows [x]. *)
Fixpoint clear_of (p x : list A) : bool :=
  match x with
  | [] => true
  | _ :: x' => negb (comparable x p) && clear_of p x'
  end.

(** No proper suffix of [p] is a prefix of [p]. *)
Definition unbordered (p : list A) : bool := clear_of p (tail p).

(** [old] and [new] are non-empty, neither overlaps itself, and neither
    can start inside the other. *)
Definition separated (old new : list A) : bool :=
  negb (bool_decide (old = [])) && negb (bool_decide (new = [])) &&
  unbordered old && unbordered new &&
  clear_of old new && clear_of new old.

End Sequences.

(** *** The methods on [str] *)

Definition chars : string → list ascii := list_ascii_of_string.
Definition text : list ascii → string := string_of_list_ascii.

Definition str_replace (s old new : string) : string :=
  text (replace (chars s) (chars old) (chars new)).

Definition str_count (s p : string) : nat := count (chars s) (chars p).

Definition str_replaced_all (old new s out : string) : Prop :=
  replaced_all (chars old) (chars new) (chars s) (chars out).

End PyStr.

(** ** The interpreter's world *)

Module PyIO.

Inductive exn := FileNotFoundError | PermissionError.

Definition exn_eqb (e1 e2 : exn) : bool :=
  match e1, e2 with
  | FileNotFoundError, FileNotFoundError => true
  | PermissionError, PermissionError => true
  | _, _ => false
  end.

Inductive mode := Rd | Wr.

(** What a run does to the outside, in program order. [EvOpen] records every
    call of [open], whether it succeeds or raises. *)
Inductive event :=
| EvOpen (path : string) (m : mode)
| EvWrite (path : string) (data : string)
| EvPrint (line : string).

Record world := World {
  files : gmap string string;   (* regular files and their text *)
  unreadable : gset string;     (* existing paths [open(_, 'r')] is denied on *)
  unwritable : gset string;     (* paths [open(_, 'w')] is denied on *)
  trace : list event
}.

Definition log (e : event) (w : world) : world :=
  World (files w) (unreadable w) (unwritable w) (trace w ++ [e]).

Definition store (p data : string) (w : world) : world :=
  World (<[p := data]> (files w)) (unreadable w) (unwritable w) (trace w).

Inductive result (A : Type) :=
| Ok (a : A)
| Raise (e : exn).
Arguments Ok {A} a.
Arguments Raise {A} e.

(** Computations that read and change the world and may raise. *)
Definition M (A : Type) : Type := world → result A * world.

Definition ret {A} (a : A) : M A := λ w, (Ok a, w).

Definition bind {A B} (m : M A) (k : A → M B) : M B :=
  λ w, match m w with
       | (Ok a, w') => k a w'
       | (Raise e, w') => (Raise e, w')
       end.

Definition raise {A} (e : exn) : M A := λ w, (Raise e, w).

(** [try: body except E: handler]. *)
Definition try_except {A} (body : M A) (E : exn) (handler : M A) : M A :=
  λ w, match body w with
       | (Raise e, w') => if exn_eqb e E then handler w' else (Raise e, w')
       | r => r
       end.

Declare Scope py_scope.
Delimit Scope py_scope with py.
Notation "x <- m ;; k" := (bind m (λ x, k))
  (at level 100, m at next level, k at level 200, right associativity) : py_scope.
Notation "m ;; k" := (bind m (λ _, k))
  (at level 100, k at level 200, right associativity) : py_scope.

(** An open file is known by its path and mode. *)
Record file := File { f_path : string; f_mode : mode }.

(** [open(p, 'r')] needs an existing, readable file; [open(p, 'w')] creates
    the file or truncates it. *)
Definition py_open (p : string) (m : mode) : M file :=
  λ w, let w := log (EvOpen p m) w in
       match m with
       | Rd =>
           match files w !! p with
           | None => (Raise FileNotFoundError, w)
           | Some _ =>
               if decide (p ∈ unreadable w) then (Raise PermissionError, w)
               else (Ok (File p Rd), w)
           end
       | Wr =>
           if decide (p ∈ unwritable w) then (Raise PermissionError, w)
           else (Ok (File p Wr), store p EmptyString w)
       end.

(** [f.read()]: the whole text. [files] holds the text of each file as the
    codec decodes it, so the read has no failure of its own here; a file
    whose bytes do not decode is not among the worlds of this model. *)
Definition f_read (f : file) : M string :=
  λ w, (Ok (default EmptyString (files w !! f_path f)), w).

(** [f.write(data)]: append to what the file holds. *)
Definition f_write (f : file) (data : string) : M unit :=
  λ w, let old := default EmptyString (files w !! f_path f) in
       (Ok tt, log (EvWrite (f_path f) data) (store (f_path f) (old +:+ data) w)).

(** [with open(p, m) as f: body]; closing changes nothing the model sees. *)
Definition with_open {A} (p : string) (m : mode) (body : file → M A) : M A :=
  (f <- py_open p m ;; body f)%py.

Definition print (line : string) : M unit :=
  λ w, (Ok tt, log (EvPrint line) w).

(** The lines on the console. *)
Definition printed (evs : list event) : list string :=
  omap (λ e, match e with EvPrint l => Some l | _ => None end) evs.

(** The paths written to, in order. *)
Definition written (evs : list event) : list string :=
  omap (λ e, match e with EvWrite p _ => Some p | _ => None end) evs.

(** The path an event opens for writing or writes to. *)
Definition write_target (e : event) : option string :=
  match e with
  | EvOpen p Wr => Some p
  | EvWrite p _ => Some p
  | _ => None
  end.

(** The world [w] after a run that left the files [fs] and logged [evs]. *)
Definition after (w : world) (fs : gmap string string) (evs : list event) : world :=
  World fs (unreadable w) (unwritable w) (trace w ++ evs).

(** The process status: an exception that reaches the top level ends the
    interpreter with status 1. *)
Definition exit_status {A} (r : result A) : Z :=
  match r with Ok _ => 0%Z | Raise _ => 1%Z end.

End PyIO.

(** ** The script *)

Module Wizard.
Import PyStr PyIO.
Local Open Scope py_scope.

Definition dq : string := String (ascii_of_nat 34) EmptyString.

Definition source_path : string :=
  "c:\Users\liaml\Documents\GitHub\Castles\src\Assets\Images\Chess\wMage.svg".
Definition w_dest_path : string :=
  "c:\Users\liaml\Documents\GitHub\Castles\src\Assets\Images\Chess\wWizard.svg".
Definition b_dest_path : string :=
  "c:\Users\liaml\Documents\GitHub\Castles\src\Assets\Images\Chess\bWizard.svg".

(** [fill="#000000" stroke="none"] *)
Definition target : string :=
  "fill=" +:+ dq +:+ "#000000" +:+ dq +:+ " stroke=" +:+ dq +:+ "none" +:+ dq.

(** [fill="#ffffff" stroke="#000000" stroke-width="10"] *)
Definition w_replacement : string :=
  "fill=" +:+ dq +:+ "#ffffff" +:+ dq +:+ " stroke=" +:+ dq +:+ "#000000" +:+ dq
  +:+ " stroke-width=" +:+ dq +:+ "10" +:+ dq.

(** [fill="#000000" stroke="#ffffff" stroke-width="10"] *)
Definition b_replacement : string :=
  "fill=" +:+ dq +:+ "#000000" +:+ dq +:+ " stroke=" +:+ dq +:+ "#ffffff" +:+ dq
  +:+ " stroke-width=" +:+ dq +:+ "10" +:+ dq.

Definition process_wizard : M unit :=
  r <- try_except
         (content <- with_open source_path Rd f_read ;; ret (Some content))
         FileNotFoundError
         (print ("Error: " +:+ source_path +:+ " not found.") ;; ret None) ;;
  match r with
  | None => ret tt
  | Some content =>
      let w_content := str_replace content target w_replacement in
      with_open w_dest_path Wr (λ f, f_write f w_content) ;;
      print ("Created " +:+ w_dest_path) ;;
      let b_content := str_replace content target b_replacement in
      with_open b_dest_path Wr (λ f, f_write f b_content) ;;
      print ("Created " +:+ b_dest_path)
  end.

(** [if __name__ == "__main__": process_wizard()] *)
Definition main (w : world) : Z * world :=
  let (r, w') := process_wizard w in (exit_status r, w').

(** A world holding one source file, everything permitted, nothing logged. *)
Definition world_with_source (content : string) : world :=
  World {[ source_path := content ]} ∅ ∅ [].

(** The five ways a run can go, by what the world permits. *)
Inductive outcome (w : world) : result unit * world → Prop :=
| out_missing :
    files w !! source_path = None →
    outcome w
      (Ok tt,
       after w (files w)
         [EvOpen source_path Rd;
          EvPrint ("Error: " +:+ source_path +:+ " not found.")])
| out_read_denied :
    is_Some (files w !! source_path) → source_path ∈ unreadable w →
    outcome w
      (Raise PermissionError, after w (files w) [EvOpen source_path Rd])
| out_white_denied content :
    files w !! source_path = Some content → source_path ∉ unreadable w →
    w_dest_path ∈ unwritable w →
    outcome w
      (Raise PermissionError,
       after w (files w) [EvOpen source_path Rd; EvOpen w_dest_path Wr])
| out_black_denied content :
    files w !! source_path = Some content → source_path ∉ unreadable w →
    w_dest_path ∉ unwritable w → b_dest_path ∈ unwritable w →
    outcome w
      (Raise PermissionError,
       after w
         (<[w_dest_path := str_replace content target w_replacement]> (files w))
         [EvOpen source_path Rd;
          EvOpen w_dest_path Wr;
          EvWrite w_dest_path (str_replace content target w_replacement);
          EvPrint ("Created " +:+ w_dest_path);
          EvOpen b_dest_path Wr])
| out_ok content :
    files w !! source_path = Some content → source_path ∉ unreadable w →
    w_dest_path ∉ unwritable w → b_dest_path ∉ unwritable w →
    outcome w
      (Ok tt,
       after w
         (<[b_dest_path := str_replace content target b_replacement]>
            (<[w_dest_path := str_replace content target w_replacement]>
               (files w)))
         [EvOpen source_path Rd;
          EvOpen w_dest_path Wr;
          EvWrite w_dest_path (str_replace content target w_replacement);
          EvPrint ("Created " +:+ w_dest_path);
          EvOpen b_dest_path Wr;
          EvWrite b_dest_path (str_replace content target b_replacement);
          EvPrint ("Created " +:+ b_dest_path)]).

(** The scenario of the specification: [fill="#000000" stroke="none" d="M0 0"]
    and the two texts expected from it. *)
Definition scenario_source : string :=
  "fill=" +:+ dq +:+ "#000000" +:+ dq +:+ " stroke=" +:+ dq +:+ "none" +:+ dq
  +:+ " d=" +:+ dq +:+ "M0 0" +:+ dq.

Definition scenario_white : string :=
  "fill=" +:+ dq +:+ "#ffffff" +:+ dq +:+ " stroke=" +:+ dq +:+ "#000000" +:+ dq
  +:+ " stroke-width=" +:+ dq +:+ "10" +:+ dq +:+ " d=" +:+ dq +:+ "M0 0" +:+ dq.

Definition scenario_black : string :=
  "fill=" +:+ dq +:+ "#000000" +:+ dq +:+ " stroke=" +:+ dq +:+ "#ffffff" +:+ dq
  +:+ " stroke-width=" +:+ dq +:+ "10" +:+ dq +:+ " d=" +:+ dq +:+ "M0 0" +:+ dq.

End Wizard.

(** ** Facts about Python strings *)

Section SequenceFacts.
Import PyStr.
Context {A : Type} `{EqDecision A}.
Implicit Types s p q u v x y old new : list A.

(** *** Prefixes *)

Lemma startswith_nil_r s : startswith s [] = true.
Proof. by destruct s. Qed.

Lemma startswith_spec s p :
  startswith s p = true ↔ ∃ v, s = p ++ v.
Proof.
  revert s. induction p as [|a p IH]; intros s.
  - rewrite startswith_nil_r. split; [eauto | done].
  - destruct s as [|b s]; simpl.
    + split; [done | by intros [v ?]].
    + rewrite andb_true_iff, bool_decide_eq_true, IH. split.
      * intros [-> [v ->]]. eauto.
      * intros [v [= -> ->]]. eauto.
Qed.

Lemma startswith_app p v : startswith (p ++ v) p = true.
Proof. apply startswith_spec. eauto. Qed.

Lemma startswith_drop s p :
  startswith s p = true → s = p ++ drop (length p) s.
Proof.
  intros [v ->]%startswith_spec. by rewrite drop_app_length.
Qed.

(** *** Unfolding [replace] *)

Lemma replace_nil old new :
  old ≠ [] → replace [] old new = [].
Proof. destruct old; [done |]. by simp replace. Qed.

Lemma replace_skip (c : A) s old new :
  startswith (c :: s) old = false →
  replace (c :: s) old new = c :: replace s old new.
Proof.
  destruct old as [|o old']; [done |]. intros H.
  simp replace. rewrite H. done.
Qed.

Lemma replace_match s old new :
  old ≠ [] → startswith s old = true →
  replace s old new = new ++ replace (drop (length old) s) old new.
Proof.
  destruct old as [|o old']; [done |]. intros _ H.
  destruct s as [|c s']; [done |].
  simp replace. rewrite H. done.
Qed.

Lemma replace_at_match v old new :
  old ≠ [] → replace (old ++ v) old new = new ++ replace v old new.
Proof.
  intros Hne. rewrite replace_match by (done || apply startswith_app).
  by rewrite drop_app_length.
Qed.


Lemma replace_before_leftmost u v old new :
  (∀ u' v', u ++ v = u' ++ old ++ v' → length u ≤ length u') →
  replace (u ++ v) old new = u ++ replace v old new.
Proof.
  induction u as [|c u IH]; intros Hleft; [done |].
  simpl. rewrite replace_skip.
  - f_equal. apply IH. intros u' v' E.
    specialize (Hleft (c :: u') v'). simpl in Hleft.
    rewrite E in Hleft. specialize (Hleft eq_refl). lia.
  - destruct (startswith (c :: u ++ v) old) eqn:E; [| done].
    apply startswith_spec in E as [v' E].
    specialize (Hleft [] v' E). simpl in Hleft. lia.
Qed.

Lemma replace_no_occurrence s old new :
  old ≠ [] → ¬ occurs old s → replace s old new = s.
Proof.
  intros Hne Hno.
  rewrite <- (app_nil_r s) at 1.
  rewrite replace_before_leftmost, replace_nil, app_nil_r; [done.. |].
  intros u' v' E. destruct Hno. exists u', v'. by rewrite <- E, app_nil_r.
Qed.

(** *** [replace] against the wording of the specification *)

Lemma replaced_all_sound old new s out :
  old ≠ [] → replaced_all old new s out → out = replace s old new.
Proof.
  intros Hne. induction 1 as [s Hno | u v out Hleft _ IH].
  - by rewrite replace_no_occurrence.
  - rewrite replace_before_leftmost by done.
    by rewrite replace_at_match, IH.
Qed.

Lemma replaced_all_cons (c : A) old new s out :
  startswith (c :: s) old = false →
  replaced_all old new s out → replaced_all old new (c :: s) (c :: out).
Proof.
  intros Hc. destruct 1 as [s Hno | u v out Hleft Hrest].
  - apply replaced_none. intros (u & v & E).
    destruct u as [|c' u]; simpl in E.
    + rewrite E, startswith_app in Hc. done.
    + injection E as -> ->. apply Hno. by exists u, v.
  - apply (replaced_first old new (c :: u)); [| done].
    intros u' v' E. destruct u' as [|c' u']; simpl in E.
    + rewrite E, startswith_app in Hc. done.
    + injection E as -> E. apply Hleft in E. simpl. lia.
Qed.

Lemma replaced_all_complete old new s :
  old ≠ [] → replaced_all old new s (replace s old new).
Proof.
  intros Hne. remember (length s) as n eqn:Hn. revert s Hn.
  induction n as [n IH] using lt_wf_ind. intros s ->.
  destruct s as [|c s].
  - rewrite replace_nil by done. apply replaced_none.
    intros (u & v & E). symmetry in E.
    apply app_eq_nil in E as [_ [E _]%app_eq_nil]. done.
  - destruct (startswith (c :: s) old) eqn:E.
    + rewrite replace_match by done.
      rewrite (startswith_drop _ _ E) at 1.
      apply (replaced_first old new []).
      * intros; simpl; lia.
      * eapply IH; [| done]. rewrite length_drop. simpl.
        destruct old; [done |]. simpl. lia.
    + rewrite replace_skip by done. apply replaced_all_cons; [done |].
      eapply IH; [| done]. simpl. lia.
Qed.

(** *** Counting *)

Lemma count_nil p : p ≠ [] → count [] p = 0.
Proof. destruct p; [done |]. by simp count. Qed.

Lemma count_skip (c : A) s p :
  startswith (c :: s) p = false → count (c :: s) p = count s p.
Proof.
  destruct p as [|o p']; [done |]. intros H.
  simp count. rewrite H. done.
Qed.

Lemma count_match s p :
  p ≠ [] → startswith s p = true →
  count s p = S (count (drop (length p) s) p).
Proof.
  destruct p as [|o p']; [done |]. intros _ H.
  destruct s as [|c s']; [done |].
  simp count. rewrite H. done.
Qed.

Lemma replace_count_0 s old new :
  old ≠ [] → count s old = 0 → replace s old new = s.
Proof.
  intros Hne. induction s as [|c s IH]; intros Hc.
  - by apply replace_nil.
  - destruct (startswith (c :: s) old) eqn:E.
    + rewrite count_match in Hc by done. done.
    + rewrite count_skip in Hc by done.
      rewrite replace_skip by done. by rewrite IH.
Qed.

(** *** Overlaps *)

Lemma comparable_sym x y : comparable x y = comparable y x.
Proof. unfold comparable. apply orb_comm. Qed.

Lemma comparable_nil_r x : comparable x [] = true.
Proof. unfold comparable. by rewrite startswith_nil_r. Qed.

(** A prefix of [x ++ y] is a prefix of [x] or continues it. *)
Lemma startswith_app_comparable x y p :
  startswith (x ++ y) p = true → comparable x p = true.
Proof.
  revert p. induction x as [|a x IH]; intros [|b p] Hp;
    try (by rewrite ?comparable_nil_r, 1?comparable_sym, ?comparable_nil_r).
  simpl in Hp. apply andb_true_iff in Hp as [Hab Hp].
  apply IH in Hp. unfold comparable in *. simpl.
  apply bool_decide_eq_true in Hab as ->.
  by rewrite !bool_decide_eq_true_2.
Qed.

Lemma clear_of_app_startswith p x y :
  x ≠ [] → clear_of p x = true → startswith (x ++ y) p = false.
Proof.
  destruct x as [|a x]; [done |]. intros _ Hc.
  simpl in Hc. apply andb_true_iff in Hc as [Hc _].
  destruct (startswith ((a :: x) ++ y) p) eqn:E; [| done].
  apply startswith_app_comparable in E. by rewrite E in Hc.
Qed.

Lemma clear_of_tail p x : clear_of p x = true → clear_of p (tail x) = true.
Proof.
  destruct x as [|a x]; [done |]. simpl.
  by intros [_ ?]%andb_true_iff.
Qed.

Lemma occurrences_app_clear p x y :
  clear_of p x = true → occurrences p (x ++ y) = occurrences p y.
Proof.
  induction x as [|a x IH]; intros Hc; [done |].
  change (occurrences p ((a :: x) ++ y))
    with ((if startswith ((a :: x) ++ y) p then 1 else 0)
          + occurrences p (x ++ y)).
  rewrite clear_of_app_startswith by done.
  apply IH. by apply clear_of_tail in Hc.
Qed.

(** Once a literal starts, the scan of an unbordered literal finds its
    next match only after it. *)
Lemma occurrences_at_match p v :
  p ≠ [] → unbordered p = true →
  occurrences p (p ++ v) = S (occurrences p v).
Proof.
  intros Hne Hu. destruct p as [|a p]; [done |].
  change (occurrences (a :: p) ((a :: p) ++ v))
    with ((if startswith ((a :: p) ++ v) (a :: p) then 1 else 0)
          + occurrences (a :: p) (p ++ v)).
  rewrite startswith_app. by rewrite occurrences_app_clear.
Qed.

Lemma count_occurrences s p :
  p ≠ [] → unbordered p = true → count s p = occurrences p s.
Proof.
  intros Hne Hu. remember (length s) as n eqn:Hn. revert s Hn.
  induction n as [n IH] using lt_wf_ind. intros s ->.
  destruct s as [|c s].
  - rewrite count_nil by done. by destruct p.
  - destruct (startswith (c :: s) p) eqn:E.
    + rewrite count_match by done.
      rewrite (startswith_drop _ _ E) at 2.
      rewrite occurrences_at_match by done. f_equal.
      eapply IH; [| done]. rewrite length_drop.
      destruct p; [done |]. simpl. lia.
    + rewrite count_skip by done.
      change (occurrences p (c :: s))
        with ((if startswith (c :: s) p then 1 else 0) + occurrences p s).
      rewrite E. eapply IH; [| done]. simpl. lia.
Qed.

(** A literal [q] all of whose suffixes are clear of [old] and of [new]
    starts the output exactly when it starts the input. *)
Lemma startswith_replace_clear s old new q :
  clear_of new q = true → clear_of old q = true →
  startswith (replace s old new) q = startswith s q.
Proof.
  revert q. induction s as [|c s IH]; intros [|b q] Hn Ho;
    rewrite ?startswith_nil_r; try done.
  - simpl in Ho. destruct old; [by rewrite comparable_nil_r in Ho |].
    by rewrite replace_nil.
  - pose proof Hn as Hn'. pose proof Ho as Ho'. simpl in Hn, Ho.
    apply andb_true_iff in Hn as [Hn Hnq], Ho as [Ho Hoq].
    assert (old ≠ []) as Hne.
    { intros ->. by rewrite comparable_nil_r in Ho. }
    destruct (startswith (c :: s) old) eqn:E.
    + rewrite replace_match by done.
      destruct (startswith (new ++ _) (b :: q)) eqn:E1.
      { apply startswith_app_comparable in E1.
        rewrite comparable_sym in E1. by rewrite E1 in Hn. }
      destruct (startswith (c :: s) (b :: q)) eqn:E2; [| done].
      rewrite (startswith_drop _ _ E) in E2.
      apply startswith_app_comparable in E2.
      rewrite comparable_sym in E2. by rewrite E2 in Ho.
    + rewrite replace_skip by done. simpl. by rewrite IH.
Qed.

Lemma startswith_cons_replace (c : A) s old new p :
  p ≠ [] → clear_of new (tail p) = true → clear_of old (tail p) = true →
  startswith (c :: replace s old new) p = startswith (c :: s) p.
Proof.
  destruct p as [|b p]; [done |]. intros _ Hn Ho. simpl.
  by rewrite startswith_replace_clear.
Qed.

(** The output holds no [old], and as many [new] as the input held of
    both. *)
Lemma occurrences_replace s old new :
  separated old new = true →
  occurrences old (replace s old new) = 0 ∧
  occurrences new (replace s old new) = occurrences old s + occurrences new s.
Proof.
  unfold separated. rewrite !andb_true_iff, !negb_true_iff.
  rewrite !bool_decide_eq_false.
  intros [[[[[Hold Hnew] Huo] Hun] Hon] Hno].
  pose proof (clear_of_tail _ _ Hon) as Hon'.
  pose proof (clear_of_tail _ _ Hno) as Hno'.
  remember (length s) as n eqn:Hn. revert s Hn.
  induction n as [n IH] using lt_wf_ind. intros s ->.
  destruct s as [|c s].
  - rewrite replace_nil by done. by destruct old, new.
  - destruct (startswith (c :: s) old) eqn:E.
    + rewrite replace_match by done.
      rewrite (startswith_drop _ _ E) at 3 4.
      assert (length (drop (length old) (c :: s)) < length (c :: s)) as Hlt.
      { rewrite length_drop. destruct old; [done |]. simpl. lia. }
      destruct (IH _ Hlt _ eq_refl) as [IH1 IH2].
      rewrite (occurrences_app_clear old new) by done.
      rewrite (occurrences_app_clear new old) by done.
      rewrite !occurrences_at_match by done. split; [done | lia].
    + rewrite replace_skip by done.
      destruct (IH (length s) (Nat.lt_succ_diag_r _) _ eq_refl) as [IH1 IH2].
      change (occurrences ?p (c :: ?t))
        with ((if startswith (c :: t) p then 1 else 0) + occurrences p t).
      rewrite !startswith_cons_replace by done.
      rewrite E, IH1, IH2. split; [done | lia].
Qed.

End SequenceFacts.

(** ** Facts about [str] *)

Section StrFacts.
Import PyStr.
Implicit Types s old new out : string.

Lemma chars_text (l : list ascii) : chars (text l) = l.
Proof. apply list_ascii_of_string_of_list_ascii. Qed.

Lemma text_chars s : text (chars s) = s.
Proof. apply string_of_list_ascii_of_string. Qed.

Lemma chars_inj s1 s2 : chars s1 = chars s2 → s1 = s2.
Proof. intros E. by rewrite <- (text_chars s1), E, text_chars. Qed.

Lemma chars_nonempty s : s ≠ EmptyString → chars s ≠ [].
Proof. by destruct s. Qed.

Lemma str_replace_spec s old new out :
  old ≠ EmptyString →
  str_replaced_all old new s out ↔ out = str_replace s old new.
Proof.
  intros Hne%chars_nonempty. unfold str_replaced_all, str_replace. split.
  - intros E%replaced_all_sound; [| done].
    by rewrite <- E, text_chars.
  - intros ->. rewrite chars_text. by apply replaced_all_complete.
Qed.

Lemma str_replace_count_0 s old new :
  old ≠ EmptyString → str_count s old = 0 → str_replace s old new = s.
Proof.
  intros Hne%chars_nonempty Hc. unfold str_replace.
  by rewrite replace_count_0, text_chars.
Qed.

Lemma str_count_replace s old new :
  separated (chars old) (chars new) = true →
  str_count (str_replace s old new) old = 0 ∧
  str_count (str_replace s old new) new = str_count s old + str_count s new.
Proof.
  intros Hsep. pose proof (occurrences_replace (chars s) _ _ Hsep) as [H0 H1].
  unfold separated in Hsep.
  rewrite !andb_true_iff, !negb_true_iff, !bool_decide_eq_false in Hsep.
  destruct Hsep as [[[[[Hold Hnew] Huo] Hun] _] _].
  unfold str_count, str_replace. rewrite chars_text.
  by rewrite !count_occurrences.
Qed.

(** The model on values Python gives for the same calls. *)
Example replace_leftmost_first : str_replace "aaa" "aa" "b" = "ba".
Proof. reflexivity. Qed.

Example replace_empty_pattern : str_replace "abc" EmptyString "-" = "-a-b-c-".
Proof. reflexivity. Qed.

Example count_non_overlapping : str_count "aaaa" "aa" = 2.
Proof. reflexivity. Qed.

End StrFacts.

(** ** Runs of the script *)

Section Runs.
Import PyStr PyIO Wizard.
Implicit Types (w : world) (content : string).

Lemma target_nonempty : target ≠ EmptyString.
Proof. done. Qed.

Lemma separated_white : separated (chars target) (chars w_replacement) = true.
Proof. vm_compute. reflexivity. Qed.

Lemma separated_black : separated (chars target) (chars b_replacement) = true.
Proof. vm_compute. reflexivity. Qed.

Lemma paths_distinct :
  source_path ≠ w_dest_path ∧ source_path ≠ b_dest_path ∧
  w_dest_path ≠ b_dest_path.
Proof. repeat split; discriminate. Qed.

(** Unfold the primitives of the monad, leaving strings and maps alone. *)
Ltac run_py :=
  cbv beta iota zeta delta
    [bind try_except with_open py_open f_read f_write print ret raise
     log store exn_eqb files unreadable unwritable trace f_path f_mode].

(** One lemma per way a run can go. *)

Lemma run_missing w :
  files w !! source_path = None →
  process_wizard w =
    (Ok tt,
     after w (files w)
       [EvOpen source_path Rd;
        EvPrint ("Error: " +:+ source_path +:+ " not found.")]).
Proof.
  destruct w as [fs ur uw tr]. cbn [files]. intros Hsrc.
  unfold process_wizard, after. run_py. rewrite Hsrc. run_py.
  by rewrite <- app_assoc.
Qed.

Lemma run_read_denied w :
  is_Some (files w !! source_path) → source_path ∈ unreadable w →
  process_wizard w =
    (Raise PermissionError, after w (files w) [EvOpen source_path Rd]).
Proof.
  destruct w as [fs ur uw tr]. cbn [files unreadable]. intros [c Hsrc] Hden.
  unfold process_wizard, after. run_py. rewrite Hsrc, decide_True by done.
  by run_py.
Qed.

Lemma run_white_denied w content :
  files w !! source_path = Some content → source_path ∉ unreadable w →
  w_dest_path ∈ unwritable w →
  process_wizard w =
    (Raise PermissionError,
     after w (files w) [EvOpen source_path Rd; EvOpen w_dest_path Wr]).
Proof.
  destruct w as [fs ur uw tr]. cbn [files unreadable unwritable].
  intros Hsrc Hrd Hw.
  unfold process_wizard, after. run_py. rewrite Hsrc, decide_False by done.
  run_py. rewrite Hsrc. cbn [default]. run_py.
  rewrite decide_True by done. by rewrite <- app_assoc.
Qed.

Lemma run_black_denied w content :
  files w !! source_path = Some content → source_path ∉ unreadable w →
  w_dest_path ∉ unwritable w → b_dest_path ∈ unwritable w →
  process_wizard w =
    (Raise PermissionError,
     after w
       (<[w_dest_path := str_replace content target w_replacement]> (files w))
       [EvOpen source_path Rd;
        EvOpen w_dest_path Wr;
        EvWrite w_dest_path (str_replace content target w_replacement);
        EvPrint ("Created " +:+ w_dest_path);
        EvOpen b_dest_path Wr]).
Proof.
  destruct w as [fs ur uw tr]. cbn [files unreadable unwritable].
  intros Hsrc Hrd Hw Hb.
  unfold process_wizard, after. run_py. rewrite Hsrc, decide_False by done.
  run_py. rewrite Hsrc. cbn [default]. run_py.
  rewrite decide_False by done. run_py.
  rewrite lookup_insert_eq, insert_insert_eq. cbn [default String.append].
  rewrite decide_True by done.
  by rewrite <- !app_assoc.
Qed.

Lemma run_ok w content :
  files w !! source_path = Some content → source_path ∉ unreadable w →
  w_dest_path ∉ unwritable w → b_dest_path ∉ unwritable w →
  process_wizard w =
    (Ok tt,
     after w
       (<[b_dest_path := str_replace content target b_replacement]>
          (<[w_dest_path := str_replace content target w_replacement]>
             (files w)))
       [EvOpen source_path Rd;
        EvOpen w_dest_path Wr;
        EvWrite w_dest_path (str_replace content target w_replacement);
        EvPrint ("Created " +:+ w_dest_path);
        EvOpen b_dest_path Wr;
        EvWrite b_dest_path (str_replace content target b_replacement);
        EvPrint ("Created " +:+ b_dest_path)]).
Proof.
  destruct w as [fs ur uw tr]. cbn [files unreadable unwritable].
  intros Hsrc Hrd Hw Hb.
  unfold process_wizard, after. run_py. rewrite Hsrc, decide_False by done.
  run_py. rewrite Hsrc. cbn [default]. run_py.
  rewrite decide_False by done. run_py.
  rewrite lookup_insert_eq, insert_insert_eq. cbn [default String.append].
  rewrite decide_False by done. run_py.
  rewrite lookup_insert_eq, insert_insert_eq. cbn [default String.append].
  by rewrite <- !app_assoc.
Qed.

(** Every run goes one of the five ways. *)
Lemma process_wizard_outcome w : outcome w (process_wizard w).
Proof.
  destruct (files w !! source_path) as [content|] eqn:Hsrc.
  - destruct (decide (source_path ∈ unreadable w)) as [Hrd|Hrd].
    { rewrite run_read_denied by (rewrite ?Hsrc; eauto).
      apply out_read_denied; rewrite ?Hsrc; eauto. }
    destruct (decide (w_dest_path ∈ unwritable w)) as [Hw|Hw].
    { erewrite run_white_denied by done. by eapply out_white_denied. }
    destruct (decide (b_dest_path ∈ unwritable w)) as [Hb|Hb].
    { erewrite run_black_denied by done. by eapply out_black_denied. }
    erewrite run_ok by done. by eapply out_ok.
  - rewrite run_missing by done. by apply out_missing.
Qed.

(** Writing both variants again over their own result changes nothing. *)
Lemma insert_both_again (fs : gmap string string) (p1 p2 d1 d2 : string) :
  <[p2 := d2]> (<[p1 := d1]> (<[p2 := d2]> (<[p1 := d1]> fs)))
  = <[p2 := d2]> (<[p1 := d1]> fs).
Proof.
  apply map_eq. intros p. rewrite !lookup_insert.
  by repeat case_decide.
Qed.

(** What a destination holds after a run in which nothing is denied. *)
Lemma run_ok_files w content :
  files w !! source_path = Some content → source_path ∉ unreadable w →
  w_dest_path ∉ unwritable w → b_dest_path ∉ unwritable w →
  files (process_wizard w).2 !! w_dest_path
    = Some (str_replace content target w_replacement) ∧
  files (process_wizard w).2 !! b_dest_path
    = Some (str_replace content target b_replacement).
Proof.
  intros Hsrc Hrd Hw Hb. rewrite (run_ok w content) by done.
  destruct paths_distinct as (_ & _ & Hwb). cbn [snd after files].
  by rewrite lookup_insert_ne, !lookup_insert_eq.
Qed.

(** A run that read the source and returned was denied nothing. *)
Lemma returned_permitted w content :
  files w !! source_path = Some content → (process_wizard w).1 = Ok tt →
  (source_path ∉ unreadable w) ∧ (w_dest_path ∉ unwritable w) ∧
  (b_dest_path ∉ unwritable w).
Proof.
  intros Hsrc. destruct (process_wizard_outcome w); cbn [fst]; intros Hret;
    try done; congruence.
Qed.

End Runs.

(** ** The claims of the specification *)

Section Claims.
Import PyStr PyIO Wizard.
Implicit Types (w : world) (content : string).

(** C1: from a source text [content], a run writes to the white destination
    [content] with every non-overlapping occurrence of the target, taken from
    the left, replaced by the white literal, and to the black destination the
    same [content] (not the white text) with the target replaced by the black
    literal. *)
Theorem C1_variants_of_source w content :
  files w !! source_path = Some content → source_path ∉ unreadable w →
  w_dest_path ∉ unwritable w → b_dest_path ∉ unwritable w →
  files (process_wizard w).2 !! w_dest_path
    = Some (str_replace content target w_replacement) ∧
  files (process_wizard w).2 !! b_dest_path
    = Some (str_replace content target b_replacement) ∧
  (∀ out, files (process_wizard w).2 !! w_dest_path = Some out
          ↔ str_replaced_all target w_replacement content out) ∧
  (∀ out, files (process_wizard w).2 !! b_dest_path = Some out
          ↔ str_replaced_all target b_replacement content out).
Proof.
  intros Hsrc Hrd Hw Hb.
  destruct (run_ok_files w content) as [Ew Eb]; [done.. |].
  rewrite Ew, Eb. repeat split; try done.
  - intros [= <-]. by apply str_replace_spec.
  - intros ->%str_replace_spec; done.
  - intros [= <-]. by apply str_replace_spec.
  - intros ->%str_replace_spec; done.
Qed.

Lemma C1_witness :
  files (world_with_source scenario_source) !! source_path
    = Some scenario_source ∧
  files (process_wizard (world_with_source scenario_source)).2 !! w_dest_path
    = Some (str_replace scenario_source target w_replacement).
Proof.
  split; [reflexivity |].
  refine (proj1 (C1_variants_of_source (world_with_source scenario_source)
                   scenario_source _ _ _ _));
    [reflexivity | apply not_elem_of_empty..].
Defined.

(** C2: when the source path does not exist the run stops before any
    output: the files are what they were, nothing was opened for writing or
    written, and the one line printed names the missing path. *)
Theorem C2_missing_source w :
  files w !! source_path = None →
  files (process_wizard w).2 = files w ∧
  ∃ evs, trace (process_wizard w).2 = trace w ++ evs ∧
         Forall (λ e, write_target e = None) evs ∧
         printed evs = ["Error: " +:+ source_path +:+ " not found."].
Proof.
  intros Hsrc. rewrite run_missing by done. split; [done |].
  eexists. split; [reflexivity |]. split; [| done].
  by repeat constructor.
Qed.

Lemma C2_witness :
  files (World ∅ ∅ ∅ []) !! source_path = None ∧
  files (process_wizard (World ∅ ∅ ∅ [])).2 = files (World ∅ ∅ ∅ []).
Proof.
  split; [reflexivity |].
  refine (proj1 (C2_missing_source (World ∅ ∅ ∅ []) _)). reflexivity.
Defined.

(** C3, as stated, fails on a source that already holds the white literal:
    the literal does not contain the target, the source holds no target, and
    the text written to the white destination holds the literal once. *)
Lemma C3_counterexample :
  str_count w_replacement target = 0 ∧
  files (process_wizard (world_with_source w_replacement)).2 !! w_dest_path
    = Some w_replacement ∧
  str_count w_replacement w_replacement ≠ str_count w_replacement target.
Proof. vm_compute. repeat split; discriminate. Qed.

(** C3 (amended): for the two variants of the script, the text written to a
    destination holds no occurrence of the target, and holds the replacement
    as often as the source held the target plus as often as the source held
    the replacement itself. *)
Theorem C3_counts_after_replacement w content :
  files w !! source_path = Some content → source_path ∉ unreadable w →
  w_dest_path ∉ unwritable w → b_dest_path ∉ unwritable w →
  ∃ w_content b_content,
    files (process_wizard w).2 !! w_dest_path = Some w_content ∧
    files (process_wizard w).2 !! b_dest_path = Some b_content ∧
    str_count w_content target = 0 ∧
    str_count b_content target = 0 ∧
    str_count w_content w_replacement
      = str_count content target + str_count content w_replacement ∧
    str_count b_content b_replacement
      = str_count content target + str_count content b_replacement.
Proof.
  intros Hsrc Hrd Hw Hb.
  destruct (run_ok_files w content) as [Ew Eb]; [done.. |].
  destruct (str_count_replace content _ _ separated_white) as [Hw0 Hw1].
  destruct (str_count_replace content _ _ separated_black) as [Hb0 Hb1].
  eauto 10.
Qed.

Lemma C3_witness :
  files (world_with_source scenario_source) !! source_path
    = Some scenario_source ∧
  ∃ w_content b_content,
    files (process_wizard (world_with_source scenario_source)).2 !! w_dest_path
      = Some w_content ∧
    files (process_wizard (world_with_source scenario_source)).2 !! b_dest_path
      = Some b_content ∧
    str_count w_content target = 0 ∧
    str_count b_content target = 0 ∧
    str_count w_content w_replacement
      = str_count scenario_source target
        + str_count scenario_source w_replacement ∧
    str_count b_content b_replacement
      = str_count scenario_source target
        + str_count scenario_source b_replacement.
Proof.
  split; [reflexivity |].
  apply (C3_counts_after_replacement (world_with_source scenario_source));
    [reflexivity | apply not_elem_of_empty..].
Defined.

(** C4: from the source [fill="#000000" stroke="none" d="M0 0"] the white
    destination receives [fill="#ffffff" stroke="#000000" stroke-width="10"
    d="M0 0"] and the black one [fill="#000000" stroke="#ffffff"
    stroke-width="10" d="M0 0"]. *)
Theorem C4_scenario w :
  files w !! source_path = Some scenario_source → source_path ∉ unreadable w →
  w_dest_path ∉ unwritable w → b_dest_path ∉ unwritable w →
  files (process_wizard w).2 !! w_dest_path = Some scenario_white ∧
  files (process_wizard w).2 !! b_dest_path = Some scenario_black.
Proof.
  intros Hsrc Hrd Hw Hb.
  destruct (run_ok_files w scenario_source) as [Ew Eb]; [done.. |].
  rewrite Ew, Eb. split; f_equal; vm_compute; reflexivity.
Qed.

Lemma C4_witness :
  files (world_with_source scenario_source) !! source_path
    = Some scenario_source ∧
  files (process_wizard (world_with_source scenario_source)).2 !! w_dest_path
    = Some scenario_white ∧
  files (process_wizard (world_with_source scenario_source)).2 !! b_dest_path
    = Some scenario_black.
Proof.
  split; [reflexivity |].
  apply (C4_scenario (world_with_source scenario_source));
    [reflexivity | apply not_elem_of_empty..].
Defined.

(** C5: when the target does not occur in the source, the run still writes
    both destinations, each with the source text itself, and returns
    normally. *)
Theorem C5_no_match_copies w content :
  files w !! source_path = Some content → source_path ∉ unreadable w →
  w_dest_path ∉ unwritable w → b_dest_path ∉ unwritable w →
  str_count content target = 0 →
  (process_wizard w).1 = Ok tt ∧
  files (process_wizard w).2 !! w_dest_path = Some content ∧
  files (process_wizard w).2 !! b_dest_path = Some content ∧
  EvWrite w_dest_path content ∈ trace (process_wizard w).2 ∧
  EvWrite b_dest_path content ∈ trace (process_wizard w).2.
Proof.
  intros Hsrc Hrd Hw Hb H0.
  destruct (run_ok_files w content) as [Ew Eb]; [done.. |].
  rewrite Ew, Eb, (run_ok w content) by done.
  rewrite !str_replace_count_0 by (done || apply target_nonempty).
  cbn [fst snd after trace]. repeat split.
  - apply elem_of_app. right. set_solver.
  - apply elem_of_app. right. set_solver.
Qed.

Lemma C5_witness :
  str_count "<svg/>" target = 0 ∧
  (process_wizard (world_with_source "<svg/>")).1 = Ok tt ∧
  files (process_wizard (world_with_source "<svg/>")).2 !! w_dest_path
    = Some "<svg/>" ∧
  files (process_wizard (world_with_source "<svg/>")).2 !! b_dest_path
    = Some "<svg/>" ∧
  EvWrite w_dest_path "<svg/>"
    ∈ trace (process_wizard (world_with_source "<svg/>")).2 ∧
  EvWrite b_dest_path "<svg/>"
    ∈ trace (process_wizard (world_with_source "<svg/>")).2.
Proof.
  split; [reflexivity |].
  apply (C5_no_match_copies (world_with_source "<svg/>"));
    [reflexivity | apply not_elem_of_empty.. | reflexivity].
Defined.

(** C6: a second run, started where the first one ended and so on the same
    source text, leaves every file, the two destinations among them, with
    the bytes the first run left, and ends the way the first did. *)
Theorem C6_second_run_same_files w :
  files (process_wizard (process_wizard w).2).2 = files (process_wizard w).2 ∧
  files (process_wizard (process_wizard w).2).2 !! w_dest_path
    = files (process_wizard w).2 !! w_dest_path ∧
  files (process_wizard (process_wizard w).2).2 !! b_dest_path
    = files (process_wizard w).2 !! b_dest_path ∧
  (process_wizard (process_wizard w).2).1 = (process_wizard w).1.
Proof.
  destruct paths_distinct as (Hsw & Hsb & Hwb).
  assert (files (process_wizard (process_wizard w).2).2
            = files (process_wizard w).2 ∧
          (process_wizard (process_wizard w).2).1 = (process_wizard w).1)
    as [Hfiles Hres]; [| by rewrite Hfiles].
  destruct (process_wizard_outcome w)
    as [Hsrc | Hsrc Hrd | content Hsrc Hrd Hw | content Hsrc Hrd Hw Hb
        | content Hsrc Hrd Hw Hb]; cbn [fst snd].
  - by rewrite run_missing.
  - by rewrite run_read_denied.
  - by rewrite (run_white_denied _ content).
  - rewrite (run_black_denied _ content); cbn [after files unreadable unwritable];
      rewrite ?lookup_insert_ne by done; try done.
    cbn [fst snd after files]. by rewrite insert_insert_eq.
  - rewrite (run_ok _ content); cbn [after files unreadable unwritable];
      rewrite ?lookup_insert_ne by done; try done.
    cbn [fst snd after files]. by rewrite insert_both_again.
Qed.

(** C7, as stated, fails on a source that exists and may not be read:
    [open] raises an exception the handler does not name, nothing is
    printed, and the process ends with status 1. *)
Lemma C7_counterexample :
  process_wizard (World {[source_path := "<svg/>"]} {[source_path]} ∅ [])
    = (Raise PermissionError,
       World {[source_path := "<svg/>"]} {[source_path]} ∅
         [EvOpen source_path Rd]) ∧
  printed
    (trace (process_wizard
              (World {[source_path := "<svg/>"]} {[source_path]} ∅ [])).2)
    = [] ∧
  (main (World {[source_path := "<svg/>"]} {[source_path]} ∅ [])).1 = 1%Z.
Proof. vm_compute. repeat split; reflexivity. Qed.

(** C7 (amended): whenever the source path cannot be opened for reading, the
    run ends at once without attempting any write; when the reason is that
    the path does not exist, the error is reported by one printed message,
    the function returns normally and the process ends with status 0; when
    the file exists and the open fails for another reason, the exception is
    not caught: it leaves the function, nothing is printed and the process
    ends with status 1. *)
Theorem C7_source_not_opened w :
  files w !! source_path = None ∨ source_path ∈ unreadable w →
  files (process_wizard w).2 = files w ∧
  ∃ evs, trace (process_wizard w).2 = trace w ++ evs ∧
         Forall (λ e, write_target e = None) evs ∧
         (files w !! source_path = None →
          (process_wizard w).1 = Ok tt ∧
          printed evs = ["Error: " +:+ source_path +:+ " not found."] ∧
          (main w).1 = 0%Z) ∧
         (is_Some (files w !! source_path) →
          (process_wizard w).1 = Raise PermissionError ∧
          printed evs = [] ∧
          (main w).1 = 1%Z).
Proof.
  intros Hno. unfold main.
  destruct (files w !! source_path) as [content|] eqn:Hsrc.
  - destruct Hno as [? | Hden]; [done |].
    rewrite run_read_denied by (rewrite ?Hsrc; eauto).
    split; [done |]. eexists. split; [reflexivity |].
    split; [by repeat constructor |]. split; [done |].
    intros _. cbn [fst exit_status]. done.
  - rewrite run_missing by done.
    split; [done |]. eexists. split; [reflexivity |].
    split; [by repeat constructor |]. split; [done |].
    by intros [? ?].
Qed.

Lemma C7_witness :
  ((files (World ∅ ∅ ∅ []) !! source_path = None
    ∨ source_path ∈ unreadable (World ∅ ∅ ∅ [])) ∧
   files (process_wizard (World ∅ ∅ ∅ [])).2 = files (World ∅ ∅ ∅ [])) ∧
  ((files (World {[source_path := "<svg/>"]} {[source_path]} ∅ [])
      !! source_path = None
    ∨ source_path
        ∈ unreadable (World {[source_path := "<svg/>"]} {[source_path]} ∅ [])) ∧
   files (process_wizard
            (World {[source_path := "<svg/>"]} {[source_path]} ∅ [])).2
     = files (World {[source_path := "<svg/>"]} {[source_path]} ∅ [])).
Proof.
  split.
  - split; [left; reflexivity |].
    refine (proj1 (C7_source_not_opened (World ∅ ∅ ∅ []) _)).
    left. reflexivity.
  - split; [right; vm_compute; reflexivity |].
    refine (proj1 (C7_source_not_opened
                     (World {[source_path := "<svg/>"]} {[source_path]} ∅ [])
                     _)).
    right. vm_compute. reflexivity.
Defined.

(** C8: when the source was read and the run returned, each destination
    holds its text, the white destination was opened and written before the
    black one, and one confirmation line was printed after each write. *)
Theorem C8_success w content :
  files w !! source_path = Some content → (process_wizard w).1 = Ok tt →
  files (process_wizard w).2 !! w_dest_path
    = Some (str_replace content target w_replacement) ∧
  files (process_wizard w).2 !! b_dest_path
    = Some (str_replace content target b_replacement) ∧
  trace (process_wizard w).2
    = trace w ++
      [EvOpen source_path Rd;
       EvOpen w_dest_path Wr;
       EvWrite w_dest_path (str_replace content target w_replacement);
       EvPrint ("Created " +:+ w_dest_path);
       EvOpen b_dest_path Wr;
       EvWrite b_dest_path (str_replace content target b_replacement);
       EvPrint ("Created " +:+ b_dest_path)] ∧
  printed (drop (length (trace w)) (trace (process_wizard w).2))
    = ["Created " +:+ w_dest_path; "Created " +:+ b_dest_path].
Proof.
  intros Hsrc Hret.
  destruct (returned_permitted w content) as (Hrd & Hw & Hb); [done.. |].
  destruct (run_ok_files w content) as [Ew Eb]; [done.. |].
  rewrite Ew, Eb, (run_ok w content) by done. cbn [snd after trace].
  by rewrite drop_app_length.
Qed.

Lemma C8_witness :
  files (world_with_source scenario_source) !! source_path
    = Some scenario_source ∧
  (process_wizard (world_with_source scenario_source)).1 = Ok tt ∧
  files (process_wizard (world_with_source scenario_source)).2 !! w_dest_path
    = Some (str_replace scenario_source target w_replacement).
Proof.
  split; [reflexivity |]. split; [reflexivity |].
  refine (proj1 (C8_success (world_with_source scenario_source)
                   scenario_source _ _)); reflexivity.
Defined.

(** C9: a run changes no file but the two destinations; the source file in
    particular keeps its text, is opened for reading only and is never
    written. *)
Theorem C9_only_destinations_written w :
  (∀ p, p ≠ w_dest_path → p ≠ b_dest_path →
        files (process_wizard w).2 !! p = files w !! p) ∧
  files (process_wizard w).2 !! source_path = files w !! source_path ∧
  ∃ evs, trace (process_wizard w).2 = trace w ++ evs ∧
         Forall (λ e, ∀ p, write_target e = Some p →
                           p = w_dest_path ∨ p = b_dest_path) evs ∧
         Forall (λ e, ∀ m, e = EvOpen source_path m → m = Rd) evs.
Proof.
  destruct paths_distinct as (Hsw & Hsb & Hwb).
  assert (∀ p, p ≠ w_dest_path → p ≠ b_dest_path →
               files (process_wizard w).2 !! p = files w !! p) as Hframe.
  { intros p Hpw Hpb.
    destruct (process_wizard_outcome w); cbn [snd after files];
      by rewrite ?lookup_insert_ne. }
  split; [done |]. split; [by apply Hframe |].
  destruct (process_wizard_outcome w); cbn [snd after trace];
    (eexists; split; [reflexivity |]);
    split;
    repeat match goal with |- Forall _ _ => constructor end;
    cbn [write_target]; intros ? E;
    first [discriminate E | injection E; intros; subst; eauto; congruence].
Qed.

(** C10: when the white destination has been written and opening the black
    one then fails, the exception leaves the run with the white destination
    holding its new text and its confirmation printed; nothing is undone, and
    the black destination is left as it was. *)
Theorem C10_no_rollback w content :
  files w !! source_path = Some content → source_path ∉ unreadable w →
  w_dest_path ∉ unwritable w → b_dest_path ∈ unwritable w →
  (process_wizard w).1 = Raise PermissionError ∧
  files (process_wizard w).2 !! w_dest_path
    = Some (str_replace content target w_replacement) ∧
  files (process_wizard w).2 !! b_dest_path = files w !! b_dest_path ∧
  trace (process_wizard w).2
    = trace w ++
      [EvOpen source_path Rd;
       EvOpen w_dest_path Wr;
       EvWrite w_dest_path (str_replace content target w_replacement);
       EvPrint ("Created " +:+ w_dest_path);
       EvOpen b_dest_path Wr].
Proof.
  intros Hsrc Hrd Hw Hb. destruct paths_distinct as (_ & _ & Hwb).
  rewrite (run_black_denied w content) by done. cbn [fst snd after files trace].
  by rewrite lookup_insert_eq, lookup_insert_ne.
Qed.

Lemma C10_witness :
  b_dest_path ∈ unwritable (World {[source_path := "<svg/>"]} ∅ {[b_dest_path]} []) ∧
  (process_wizard (World {[source_path := "<svg/>"]} ∅ {[b_dest_path]} [])).1
    = Raise PermissionError ∧
  files (process_wizard
           (World {[source_path := "<svg/>"]} ∅ {[b_dest_path]} [])).2
    !! w_dest_path
    = Some (str_replace "<svg/>" target w_replacement).
Proof.
  split; [vm_compute; reflexivity |].
  destruct (C10_no_rollback
              (World {[source_path := "<svg/>"]} ∅ {[b_dest_path]} [])
              "<svg/>") as (H1 & H2 & _).
  - reflexivity.
  - apply not_elem_of_empty.
  - vm_compute. discriminate.
  - vm_compute. reflexivity.
  - split; [exact H1 | exact H2].
Defined.

End Claims.

(** ** Further facts about [replace] *)

Section ReplaceLaws.
Import PyStr.
Context {A : Type} `{EqDecision A}.
Implicit Types s p x y old mid new : list A.

(** Each match trades the length of [old] for the length of [new]. *)
Lemma replace_length s old new :
  old ≠ [] →
  length (replace s old new) + count s old * length old
  = length s + count s old * length new.
Proof.
  intros Hne. remember (length s) as n eqn:Hn. revert s Hn.
  induction n as [n IH] using lt_wf_ind. intros s ->.
  destruct s as [|c s].
  - by rewrite replace_nil, count_nil.
  - destruct (startswith (c :: s) old) eqn:E.
    + rewrite replace_match, count_match by done.
      pose proof (startswith_drop _ _ E) as Hs.
      apply (f_equal length) in Hs. rewrite length_app in Hs.
      assert (0 < length old) by (destruct old; [done | simpl; lia]).
      specialize (IH (length (drop (length old) (c :: s))) ltac:(lia) _ eq_refl).
      rewrite length_app. lia.
    + rewrite replace_skip, count_skip by done.
      specialize (IH (length s) ltac:(simpl; lia) _ eq_refl).
      simpl. lia.
Qed.

(** Replacing a literal by itself changes nothing. *)
Lemma replace_same s p : p ≠ [] → replace s p p = s.
Proof.
  intros Hne. remember (length s) as n eqn:Hn. revert s Hn.
  induction n as [n IH] using lt_wf_ind. intros s ->.
  destruct s as [|c s].
  - by apply replace_nil.
  - destruct (startswith (c :: s) p) eqn:E.
    + rewrite replace_match by done.
      pose proof (startswith_drop _ _ E) as Hs.
      pose proof (f_equal length Hs) as Hl. rewrite length_app in Hl.
      assert (0 < length p) by (destruct p; [done | simpl; lia]).
      rewrite (IH (length (drop (length p) (c :: s)))) by (lia || done).
      by rewrite <- Hs.
    + rewrite replace_skip by done. f_equal.
      apply (IH (length s)); [simpl; lia | done].
Qed.

Lemma occurrences_0_app_r p x y :
  occurrences p (x ++ y) = 0 → occurrences p y = 0.
Proof.
  induction x as [|a x IH]; [done |].
  change (occurrences p ((a :: x) ++ y))
    with ((if startswith ((a :: x) ++ y) p then 1 else 0)
          + occurrences p (x ++ y)).
  intros H. apply IH. lia.
Qed.

(** Replacing [old] by [mid] and then [mid] by [new] is replacing [old] by
    [new], when the text holds no [mid] of its own. *)
Lemma replace_replace s old mid new :
  separated old mid = true → occurrences mid s = 0 →
  replace (replace s old mid) mid new = replace s old new.
Proof.
  unfold separated. rewrite !andb_true_iff, !negb_true_iff.
  rewrite !bool_decide_eq_false.
  intros [[[[[Hold Hmid] _] Hum] Hom] _].
  pose proof (clear_of_tail _ _ Hom) as Hom'.
  remember (length s) as n eqn:Hn. revert s Hn.
  induction n as [n IH] using lt_wf_ind. intros s -> H0.
  destruct s as [|c s].
  - by rewrite !replace_nil.
  - destruct (startswith (c :: s) old) eqn:E.
    + rewrite !(replace_match (c :: s)) by done.
      rewrite replace_at_match by done. f_equal.
      pose proof (startswith_drop _ _ E) as Hs.
      pose proof (f_equal length Hs) as Hl. rewrite length_app in Hl.
      assert (0 < length old) by (destruct old; [done | simpl; lia]).
      apply (IH (length (drop (length old) (c :: s)))); [lia | done |].
      rewrite Hs in H0. by apply occurrences_0_app_r in H0.
    + rewrite !(replace_skip c s) by done.
      change (occurrences mid (c :: s))
        with ((if startswith (c :: s) mid then 1 else 0) + occurrences mid s)
        in H0.
      destruct (startswith (c :: s) mid) eqn:Em; [lia |].
      rewrite replace_skip by (by rewrite startswith_cons_replace).
      f_equal. apply (IH (length s)); [simpl; lia | done | lia].
Qed.

End ReplaceLaws.

Section StrLaws.
Import PyStr.
Implicit Types s old mid new : string.

Lemma chars_length s : length (chars s) = String.length s.
Proof. induction s as [|a s IH]; [done |]. simpl. by rewrite IH. Qed.

Lemma str_replace_length s old new :
  old ≠ EmptyString →
  String.length (str_replace s old new) + str_count s old * String.length old
  = String.length s + str_count s old * String.length new.
Proof.
  intros Hne%chars_nonempty. unfold str_replace, str_count.
  rewrite <- !chars_length, chars_text. by apply replace_length.
Qed.

Lemma str_replace_same s old : old ≠ EmptyString → str_replace s old old = s.
Proof.
  intros Hne%chars_nonempty. unfold str_replace.
  by rewrite replace_same, text_chars.
Qed.

Lemma str_replace_replace s old mid new :
  separated (chars old) (chars mid) = true → str_count s mid = 0 →
  str_replace (str_replace s old mid) mid new = str_replace s old new.
Proof.
  intros Hsep H0. unfold str_replace, str_count in *. rewrite chars_text.
  rewrite replace_replace; [done.. |].
  unfold separated in Hsep.
  rewrite !andb_true_iff, !negb_true_iff, !bool_decide_eq_false in Hsep.
  destruct Hsep as [[[[[_ Hmid] _] Hum] _] _].
  by rewrite <- count_occurrences.
Qed.

End StrLaws.

(** ** Further properties of the runs *)

Section Extras.
Import PyStr PyIO Wizard.
Implicit Types (w : world) (content : string).

(** X1: when the source file exists and any one of the three opens is
    denied, the function does not return normally, the process ends with
    status 1, and the black destination is left as it was. *)
Theorem X1_denied_open_status w :
  is_Some (files w !! source_path) →
  source_path ∈ unreadable w ∨ w_dest_path ∈ unwritable w
  ∨ b_dest_path ∈ unwritable w →
  (process_wizard w).1 ≠ Ok tt ∧
  (main w).1 = 1%Z ∧
  files (process_wizard w).2 !! b_dest_path = files w !! b_dest_path.
Proof.
  intros Hex Hden. unfold main. destruct paths_distinct as (_ & _ & Hwb).
  destruct (process_wizard_outcome w)
    as [Hsrc | Hsrc Hrd | content Hsrc Hrd Hw | content Hsrc Hrd Hw Hb
        | content Hsrc Hrd Hw Hb]; cbn [fst snd exit_status after files].
  - rewrite Hsrc in Hex. by destruct Hex.
  - done.
  - done.
  - by rewrite lookup_insert_ne.
  - by destruct Hden as [?|[?|?]].
Qed.

Lemma X1_witness :
  is_Some (files (World {[source_path := "<svg/>"]} ∅ {[b_dest_path]} [])
             !! source_path) ∧
  (main (World {[source_path := "<svg/>"]} ∅ {[b_dest_path]} [])).1 = 1%Z.
Proof.
  split; [by eexists |].
  refine (proj1 (proj2 (X1_denied_open_status
                          (World {[source_path := "<svg/>"]} ∅ {[b_dest_path]} [])
                          _ _))).
  - by eexists.
  - right. right. vm_compute. reflexivity.
Defined.

(** X2: when the white destination may not be opened, the exception leaves
    the run there: no file is changed, the black destination is never
    opened and nothing is printed. *)
Theorem X2_white_denied_stops w content :
  files w !! source_path = Some content → source_path ∉ unreadable w →
  w_dest_path ∈ unwritable w →
  (process_wizard w).1 = Raise PermissionError ∧
  files (process_wizard w).2 = files w ∧
  trace (process_wizard w).2
    = trace w ++ [EvOpen source_path Rd; EvOpen w_dest_path Wr] ∧
  printed (drop (length (trace w)) (trace (process_wizard w).2)) = [].
Proof.
  intros Hsrc Hrd Hw. rewrite (run_white_denied w content) by done.
  cbn [fst snd after files trace]. by rewrite drop_app_length.
Qed.

Lemma X2_witness :
  w_dest_path
    ∈ unwritable (World {[source_path := "<svg/>"]} ∅ {[w_dest_path]} []) ∧
  (process_wizard (World {[source_path := "<svg/>"]} ∅ {[w_dest_path]} [])).1
    = Raise PermissionError.
Proof.
  split; [vm_compute; reflexivity |].
  refine (proj1 (X2_white_denied_stops
                   (World {[source_path := "<svg/>"]} ∅ {[w_dest_path]} [])
                   "<svg/>" _ _ _)).
  - reflexivity.
  - apply not_elem_of_empty.
  - vm_compute. reflexivity.
Defined.

(** X3: each written text is longer than the source by 21 characters for
    every match of the target, so the two destination files have the same
    length. *)
Theorem X3_output_length w content :
  files w !! source_path = Some content → source_path ∉ unreadable w →
  w_dest_path ∉ unwritable w → b_dest_path ∉ unwritable w →
  ∃ w_content b_content,
    files (process_wizard w).2 !! w_dest_path = Some w_content ∧
    files (process_wizard w).2 !! b_dest_path = Some b_content ∧
    String.length w_content
      = String.length content + 21 * str_count content target ∧
    String.length b_content = String.length w_content.
Proof.
  intros Hsrc Hrd Hw Hb.
  destruct (run_ok_files w content) as [Ew Eb]; [done.. |].
  pose proof (str_replace_length content target w_replacement target_nonempty)
    as Lw.
  pose proof (str_replace_length content target b_replacement target_nonempty)
    as Lb.
  change (String.length target) with 28 in *.
  change (String.length w_replacement) with 49 in *.
  change (String.length b_replacement) with 49 in *.
  eexists _, _. split; [done |]. split; [done |]. lia.
Qed.

Lemma X3_witness :
  files (world_with_source scenario_source) !! source_path
    = Some scenario_source ∧
  ∃ w_content b_content,
    files (process_wizard (world_with_source scenario_source)).2 !! w_dest_path
      = Some w_content ∧
    files (process_wizard (world_with_source scenario_source)).2 !! b_dest_path
      = Some b_content ∧
    String.length w_content
      = String.length scenario_source + 21 * str_count scenario_source target ∧
    String.length b_content = String.length w_content.
Proof.
  split; [reflexivity |].
  apply (X3_output_length (world_with_source scenario_source));
    [reflexivity | apply not_elem_of_empty..].
Defined.

(** X4: when the source holds neither replacement literal, it can be
    recovered from either destination by replacing the variant's literal
    back by the target. *)
Theorem X4_source_recoverable w content :
  files w !! source_path = Some content → source_path ∉ unreadable w →
  w_dest_path ∉ unwritable w → b_dest_path ∉ unwritable w →
  str_count content w_replacement = 0 → str_count content b_replacement = 0 →
  ∃ w_content b_content,
    files (process_wizard w).2 !! w_dest_path = Some w_content ∧
    files (process_wizard w).2 !! b_dest_path = Some b_content ∧
    str_replace w_content w_replacement target = content ∧
    str_replace b_content b_replacement target = content.
Proof.
  intros Hsrc Hrd Hw Hb Hw0 Hb0.
  destruct (run_ok_files w content) as [Ew Eb]; [done.. |].
  eexists _, _. split; [done |]. split; [done |].
  rewrite !str_replace_replace
    by (done || apply separated_white || apply separated_black).
  by rewrite str_replace_same by apply target_nonempty.
Qed.

Lemma X4_witness :
  str_count scenario_source w_replacement = 0 ∧
  str_count scenario_source b_replacement = 0 ∧
  ∃ w_content b_content,
    files (process_wizard (world_with_source scenario_source)).2 !! w_dest_path
      = Some w_content ∧
    files (process_wizard (world_with_source scenario_source)).2 !! b_dest_path
      = Some b_content ∧
    str_replace w_content w_replacement target = scenario_source ∧
    str_replace b_content b_replacement target = scenario_source.
Proof.
  split; [reflexivity |]. split; [reflexivity |].
  apply (X4_source_recoverable (world_with_source scenario_source)
           scenario_source);
    [reflexivity | apply not_elem_of_empty.. | reflexivity | reflexivity].
Defined.

(** X5: when the source holds neither replacement literal, each
    destination text is the other one with its literal exchanged. *)
Theorem X5_variants_exchange w content :
  files w !! source_path = Some content → source_path ∉ unreadable w →
  w_dest_path ∉ unwritable w → b_dest_path ∉ unwritable w →
  str_count content w_replacement = 0 → str_count content b_replacement = 0 →
  ∃ w_content b_content,
    files (process_wizard w).2 !! w_dest_path = Some w_content ∧
    files (process_wizard w).2 !! b_dest_path = Some b_content ∧
    str_replace w_content w_replacement b_replacement = b_content ∧
    str_replace b_content b_replacement w_replacement = w_content.
Proof.
  intros Hsrc Hrd Hw Hb Hw0 Hb0.
  destruct (run_ok_files w content) as [Ew Eb]; [done.. |].
  eexists _, _. split; [done |]. split; [done |].
  by rewrite !str_replace_replace
    by (done || apply separated_white || apply separated_black).
Qed.

Lemma X5_witness :
  str_count scenario_source w_replacement = 0 ∧
  str_count scenario_source b_replacement = 0 ∧
  ∃ w_content b_content,
    files (process_wizard (world_with_source scenario_source)).2 !! w_dest_path
      = Some w_content ∧
    files (process_wizard (world_with_source scenario_source)).2 !! b_dest_path
      = Some b_content ∧
    str_replace w_content w_replacement b_replacement = b_content ∧
    str_replace b_content b_replacement w_replacement = w_content.
Proof.
  split; [reflexivity |]. split; [reflexivity |].
  apply (X5_variants_exchange (world_with_source scenario_source)
           scenario_source);
    [reflexivity | apply not_elem_of_empty.. | reflexivity | reflexivity].
Defined.

(** X6: a source that is itself a text the script wrote (the white or the
    black variant of any text) holds no target, so a run on it copies it to
    both destinations unchanged. *)
Theorem X6_output_as_source_is_copied w content original :
  files w !! source_path = Some content → source_path ∉ unreadable w →
  w_dest_path ∉ unwritable w → b_dest_path ∉ unwritable w →
  content = str_replace original target w_replacement
  ∨ content = str_replace original target b_replacement →
  (process_wizard w).1 = Ok tt ∧
  files (process_wizard w).2 !! w_dest_path = Some content ∧
  files (process_wizard w).2 !! b_dest_path = Some content.
Proof.
  intros Hsrc Hrd Hw Hb Hout.
  assert (str_count content target = 0) as H0.
  { destruct Hout as [-> | ->].
    - apply (str_count_replace original _ _ separated_white).
    - apply (str_count_replace original _ _ separated_black). }
  destruct (run_ok_files w content) as [Ew Eb]; [done.. |].
  rewrite Ew, Eb, (run_ok w content) by done.
  by rewrite !str_replace_count_0 by (done || apply target_nonempty).
Qed.

Lemma X6_witness :
  (scenario_white = str_replace scenario_source target w_replacement
   ∨ scenario_white = str_replace scenario_source target b_replacement) ∧
  (process_wizard (world_with_source scenario_white)).1 = Ok tt ∧
  files (process_wizard (world_with_source scenario_white)).2 !! w_dest_path
    = Some scenario_white ∧
  files (process_wizard (world_with_source scenario_white)).2 !! b_dest_path
    = Some scenario_white.
Proof.
  split; [left; reflexivity |].
  apply (X6_output_as_source_is_copied (world_with_source scenario_white)
           scenario_white scenario_source);
    [reflexivity | apply not_elem_of_empty.. | left; reflexivity].
Defined.

(** X7: in every run, whatever is denied, the lines printed are the error
    line when the source is missing, followed by one confirmation for each
    path written, in the order of the writes: no confirmation without its
    write, no write without its confirmation. *)
Theorem X7_confirmations_follow_writes w :
  printed (drop (length (trace w)) (trace (process_wizard w).2))
  = match files w !! source_path with
    | Some _ => []
    | None => ["Error: " +:+ source_path +:+ " not found."]
    end
    ++ ((λ p, "Created " +:+ p)
          <$> written (drop (length (trace w)) (trace (process_wizard w).2))).
Proof.
  destruct (process_wizard_outcome w)
    as [Hsrc | [c Hsrc] Hrd | content Hsrc Hrd Hw | content Hsrc Hrd Hw Hb
        | content Hsrc Hrd Hw Hb]; cbn [snd after trace];
    by rewrite drop_app_length, Hsrc.
Qed.

End Extras.
